(** * mongo-basemodel: the lifecycle metadata of [BaseCollection]

    A shallow embedding of [basemodel.go].  The eight methods of
    [*BaseCollection] are written in a state-and-error monad whose state
    holds the pointee of the receiver and the ambient world (the system
    clock and the driver's identifier generator); the only error is the
    run-time panic of a nil receiver.  The second half of the file states
    and proves the lifecycle contract of the record.

    The repository of [examples/mongodb/main.go] is embedded on top of
    it, with the MongoDB driver as an oracle that answers the requests
    the repository sends, and its use of the record is proved last. *)

Set Warnings "-stdlib-vector".
From Stdlib Require Import ZArith NArith List String Ascii Bool Lia.
From Stdlib Require Import Strings.Byte.
From Stdlib Require Vector.
From ExtLib Require Import Structures.Monad Structures.MonadState Structures.MonadExc.
From ExtLib Require Import Data.Monads.StateMonad Data.Monads.EitherMonad.
Import ListNotations.
Import MonadNotation.
Local Open Scope monad_scope.
#[local] Existing Instance Monad_stateT.

(* ================================================================== *)
(** ** The imported packages *)
(* ================================================================== *)

(** Modelled from the spec: package [time] of the Go standard library is
    imported by [basemodel.go] and is not part of the repository.  A
    [time.Time] is kept as the instant it denotes, counted in nanoseconds
    from the zero [Time]; the zero value of the type is that instant. *)
Module time.

Definition Time : Type := Z.

(** The zero value [time.Time{}]. *)
Definition zero : Time := 0%Z.

Definition IsZero (t : Time) : bool := (t =? 0)%Z.

(** [t.After(u)] and [t.Before(u)]. *)
Definition After (t u : Time) : bool := (u <? t)%Z.
Definition Before (t u : Time) : bool := (t <? u)%Z.

End time.

(** Modelled from the spec: package [encoding/hex], which the driver uses
    to render an identifier.  [Encode] writes two lower-case digits per
    source byte, [hextable[v>>4]] and then [hextable[v&0x0f]]. *)
Module hex.

Definition hextable : list ascii := list_ascii_of_string "0123456789abcdef".

Definition digit (i : N) : ascii := nth (N.to_nat i) hextable "0"%char.

Fixpoint Encode (src : list byte) : list ascii :=
  match src with
  | [] => []
  | v :: rest =>
      digit (N.shiftr (Byte.to_N v) 4)
        :: digit (N.land (Byte.to_N v) 15)
        :: Encode rest
  end.


(** The value of a digit; [None] off the table.  Only the proofs use it,
    to read an encoding back. *)
Fixpoint index (c : ascii) (table : list ascii) (i : N) : option N :=
  match table with
  | [] => None
  | d :: rest => if Ascii.eqb c d then Some i else index c rest (N.succ i)
  end.

Definition fromHexChar (c : ascii) : option N := index c hextable 0%N.

Fixpoint Decode (src : list ascii) : option (list N) :=
  match src with
  | [] => Some []
  | [_] => None
  | hi :: lo :: rest =>
      match fromHexChar hi, fromHexChar lo, Decode rest with
      | Some h, Some l, Some vs => Some ((16 * h + l)%N :: vs)
      | _, _, _ => None
      end
  end.

End hex.

(** Modelled from the spec: package [bson/primitive] of the MongoDB driver,
    not part of the repository.  An [ObjectID] is a 12-byte array; its
    zero value is [NilObjectID]; [Hex] renders it as 24 hexadecimal
    characters. *)
Module primitive.

Definition ObjectID : Type := Vector.t byte 12.

Definition NilObjectID : ObjectID := Vector.const x00 12.

Definition eqb (a b : ObjectID) : bool :=
  Vector.eqb byte Byte.eqb a b.

Definition IsZero (id : ObjectID) : bool := eqb id NilObjectID.

Definition Hex (id : ObjectID) : string :=
  string_of_list_ascii (hex.Encode (Vector.to_list id)).

End primitive.

(* ================================================================== *)
(** ** The ambient world *)
(* ================================================================== *)

(** What the methods read besides the record: the system clock and the
    identifier generator.  Both are oracles: [wallClock w k] is what the
    [k]-th call of [time.Now()] returns and [objectIDs w k] what the
    [k]-th call of [primitive.NewObjectID()] returns; [clockReads] and
    [idsIssued] count the calls made so far. *)
Record World : Type := mkWorld {
  wallClock : nat -> time.Time;
  objectIDs : nat -> primitive.ObjectID;
  clockReads : nat;
  idsIssued : nat
}.

(* ================================================================== *)
(** ** The record *)
(* ================================================================== *)

(** [type BaseCollection struct]: the two pointer fields are [None] when
    nil and [Some t] when they point at the time [t]. *)
Record BaseCollection : Type := mkBaseCollection {
  Oid : primitive.ObjectID;
  CreatedAt : time.Time;
  UpdatedAt : option time.Time;
  DeletedAt : option time.Time
}.

(** The zero value [BaseCollection{}], which a freshly constructed record
    embeds. *)
Definition zeroBaseCollection : BaseCollection :=
  {| Oid := primitive.NilObjectID;
     CreatedAt := time.zero;
     UpdatedAt := None;
     DeletedAt := None |}.

(** Field assignments [b.F = v]. *)
Definition set_Oid (v : primitive.ObjectID) (b : BaseCollection) : BaseCollection :=
  {| Oid := v; CreatedAt := CreatedAt b;
     UpdatedAt := UpdatedAt b; DeletedAt := DeletedAt b |}.

Definition set_CreatedAt (v : time.Time) (b : BaseCollection) : BaseCollection :=
  {| Oid := Oid b; CreatedAt := v;
     UpdatedAt := UpdatedAt b; DeletedAt := DeletedAt b |}.

Definition set_UpdatedAt (v : option time.Time) (b : BaseCollection) : BaseCollection :=
  {| Oid := Oid b; CreatedAt := CreatedAt b;
     UpdatedAt := v; DeletedAt := DeletedAt b |}.

Definition set_DeletedAt (v : option time.Time) (b : BaseCollection) : BaseCollection :=
  {| Oid := Oid b; CreatedAt := CreatedAt b;
     UpdatedAt := UpdatedAt b; DeletedAt := v |}.

(* ================================================================== *)
(** ** The method monad *)
(* ================================================================== *)

(** The state a method of [*BaseCollection] runs in: [this] is what the
    receiver [b] points at ([None] for a nil receiver) and [ambient] the
    world. *)
Record Machine : Type := mkMachine {
  this : option BaseCollection;
  ambient : World
}.

(** A run-time panic, with the message of the Go runtime. *)
Definition Panic : Type := string.

Definition nilDereference : Panic :=
  "invalid memory address or nil pointer dereference"%string.

Definition go : Type -> Type := stateT Machine (sum Panic).

(** [time.Now()]. *)
Definition time_Now : go time.Time :=
  m <- get ;;
  let w := ambient m in
  put {| this := this m;
         ambient := {| wallClock := wallClock w; objectIDs := objectIDs w;
                       clockReads := S (clockReads w);
                       idsIssued := idsIssued w |} |} ;;
  ret (wallClock w (clockReads w)).

(** [primitive.NewObjectID()]. *)
Definition primitive_NewObjectID : go primitive.ObjectID :=
  m <- get ;;
  let w := ambient m in
  put {| this := this m;
         ambient := {| wallClock := wallClock w; objectIDs := objectIDs w;
                       clockReads := clockReads w;
                       idsIssued := S (idsIssued w) |} |} ;;
  ret (objectIDs w (idsIssued w)).

(** Reading a field through the receiver, [b.F]. *)
Definition load {A : Type} (field : BaseCollection -> A) : go A :=
  m <- get ;;
  match this m with
  | Some b => ret (field b)
  | None => raise nilDereference
  end.

(** Writing a field through the receiver, [b.F = v]. *)
Definition store (assign : BaseCollection -> BaseCollection) : go unit :=
  m <- get ;;
  match this m with
  | Some b => put {| this := Some (assign b); ambient := ambient m |}
  | None => raise nilDereference
  end.

(* ================================================================== *)
(** ** The methods of [basemodel.go] *)
(* ================================================================== *)

(** [func (b *BaseCollection) SetInsertMeta()] *)
Definition SetInsertMeta : go unit :=
  now <- time_Now ;;
  oid <- primitive_NewObjectID ;;
  store (set_Oid oid) ;;
  store (set_CreatedAt now).

(** [func (b *BaseCollection) SetUpdateMeta()] *)
Definition SetUpdateMeta : go unit :=
  now <- time_Now ;;
  store (set_UpdatedAt (Some now)).

(** [func (b *BaseCollection) SetDeleteMeta()] *)
Definition SetDeleteMeta : go unit :=
  now <- time_Now ;;
  store (set_DeletedAt (Some now)).

(** [func (b *BaseCollection) IsDeleted() bool]: [b.DeletedAt != nil]. *)
Definition IsDeleted : go bool :=
  d <- load DeletedAt ;;
  ret (match d with Some _ => true | None => false end).

(** [func (b *BaseCollection) GetID() string] *)
Definition GetID : go string :=
  oid <- load Oid ;;
  ret (primitive.Hex oid).

(** [func (b *BaseCollection) GetCreatedAt() time.Time] *)
Definition GetCreatedAt : go time.Time := load CreatedAt.

(** [func (b *BaseCollection) GetUpdatedAt() *time.Time] *)
Definition GetUpdatedAt : go (option time.Time) := load UpdatedAt.

(** [func (b *BaseCollection) GetDeletedAt() *time.Time] *)
Definition GetDeletedAt : go (option time.Time) := load DeletedAt.

(* ================================================================== *)
(** ** Calling the methods *)
(* ================================================================== *)

(** The eight methods by name, and what a call hands back. *)
Inductive Method : Type :=
| MSetInsertMeta
| MSetUpdateMeta
| MSetDeleteMeta
| MIsDeleted
| MGetID
| MGetCreatedAt
| MGetUpdatedAt
| MGetDeletedAt.

Inductive Value : Type :=
| VNone
| VBool (v : bool)
| VString (v : string)
| VTime (v : time.Time)
| VTimePtr (v : option time.Time).

Definition invoke (m : Method) : go Value :=
  match m with
  | MSetInsertMeta => SetInsertMeta ;; ret VNone
  | MSetUpdateMeta => SetUpdateMeta ;; ret VNone
  | MSetDeleteMeta => SetDeleteMeta ;; ret VNone
  | MIsDeleted => v <- IsDeleted ;; ret (VBool v)
  | MGetID => v <- GetID ;; ret (VString v)
  | MGetCreatedAt => v <- GetCreatedAt ;; ret (VTime v)
  | MGetUpdatedAt => v <- GetUpdatedAt ;; ret (VTimePtr v)
  | MGetDeletedAt => v <- GetDeletedAt ;; ret (VTimePtr v)
  end.

(** A caller's straight-line sequence of calls on one record. *)
Fixpoint invokeAll (ms : list Method) : go (list Value) :=
  match ms with
  | [] => ret []
  | m :: rest =>
      v <- invoke m ;;
      vs <- invokeAll rest ;;
      ret (v :: vs)
  end.

Definition isInsert (m : Method) : bool :=
  match m with MSetInsertMeta => true | _ => false end.

(** Running a method on the record [b] in the world [w]. *)
Definition call {A : Type} (body : go A) (b : BaseCollection) (w : World)
  : Panic + (A * Machine) :=
  runStateT body {| this := Some b; ambient := w |}.

(** Running it through a nil receiver. *)
Definition callNil {A : Type} (body : go A) (w : World)
  : Panic + (A * Machine) :=
  runStateT body {| this := None; ambient := w |}.

(** The world after [k] more reads of the clock and [i] more identifiers. *)
Definition later (k i : nat) (w : World) : World :=
  {| wallClock := wallClock w; objectIDs := objectIDs w;
     clockReads := k + clockReads w; idsIssued := i + idsIssued w |}.

(** What [time.Now()] and [primitive.NewObjectID()] would return next. *)
Definition now (w : World) : time.Time := wallClock w (clockReads w).
Definition nextID (w : World) : primitive.ObjectID := objectIDs w (idsIssued w).

(** The clock reads and the identifiers a call consumes. *)
Definition readsOf (m : Method) : nat :=
  match m with
  | MSetInsertMeta | MSetUpdateMeta | MSetDeleteMeta => 1
  | _ => 0
  end.

Definition idsOf (m : Method) : nat :=
  match m with MSetInsertMeta => 1 | _ => 0 end.

Definition readsOfAll (ms : list Method) : nat := list_sum (map readsOf ms).
Definition idsOfAll (ms : list Method) : nat := list_sum (map idsOf ms).

(** The two optional timestamps, each with the setter that stamps it. *)
Inductive Stamp : Type := Updated | Deleted.

Definition stampOf (k : Stamp) (b : BaseCollection) : option time.Time :=
  match k with Updated => UpdatedAt b | Deleted => DeletedAt b end.

Definition stampSetter (k : Stamp) : Method :=
  match k with Updated => MSetUpdateMeta | Deleted => MSetDeleteMeta end.

Definition setsStamp (k : Stamp) (m : Method) : bool :=
  match k, m with
  | Updated, MSetUpdateMeta | Deleted, MSetDeleteMeta => true
  | _, _ => false
  end.

(* ================================================================== *)
(** ** Assumptions on the world *)
(* ================================================================== *)

(** The generator repeats none of its first [n] identifiers. *)
Definition freshUpTo (w : World) (n : nat) : Prop :=
  forall i j, i < j -> j < n -> objectIDs w i <> objectIDs w j.

(** The clock never runs backwards. *)
Definition monotoneClock (w : World) : Prop :=
  forall i j, i <= j -> (wallClock w i <= wallClock w j)%Z.

(* ================================================================== *)
(** ** Sample worlds *)
(* ================================================================== *)

(** The nine leading bytes of the identifier [507f1f77bcf86cd799439011]
    of the specification, followed by a three-byte big-endian counter. *)
Definition byteOf (n : N) : byte :=
  match Byte.of_N (n mod 256) with Some v => v | None => x00 end.

Definition counterID (c : N) : primitive.ObjectID :=
  Vector.of_list
    [x50; x7f; x1f; x77; xbc; xf8; x6c; xd7; x99;
     byteOf (N.shiftr c 16); byteOf (N.shiftr c 8); byteOf c].

(** 2024-05-30T00:00:00Z, in nanoseconds from the zero [Time]. *)
Definition releaseDay : time.Time := 63852624000000000000%Z.

(** A clock that advances ten milliseconds between two reads. *)
Definition tickingWorld : World :=
  {| wallClock := fun k => (releaseDay + 10000000 * Z.of_nat k)%Z;
     objectIDs := fun k => counterID (4427793 + N.of_nat k);
     clockReads := 0;
     idsIssued := 0 |}.

(** A clock too coarse to tell two successive reads apart. *)
Definition stalledWorld : World :=
  {| wallClock := fun _ => releaseDay;
     objectIDs := fun k => counterID (4427793 + N.of_nat k);
     clockReads := 0;
     idsIssued := 0 |}.

(** A record as the persistence layer may hand it back: inserted, updated
    and soft-deleted. *)
Definition storedRecord : BaseCollection :=
  {| Oid := counterID 4427793;
     CreatedAt := releaseDay;
     UpdatedAt := Some (releaseDay + 5000000)%Z;
     DeletedAt := Some (releaseDay + 7000000)%Z |}.

Definition zeroHex : string := "000000000000000000000000".

(* ================================================================== *)
(** ** Summaries of a call *)
(* ================================================================== *)

(** The three methods that write the record. *)
Definition isSetter (m : Method) : bool :=
  match m with
  | MSetInsertMeta | MSetUpdateMeta | MSetDeleteMeta => true
  | _ => false
  end.

(** The record a call of [m] leaves behind, as [call_invoke] proves of
    the method bodies above. *)
Definition effect (m : Method) (w : World) (b : BaseCollection) : BaseCollection :=
  match m with
  | MSetInsertMeta => set_CreatedAt (now w) (set_Oid (nextID w) b)
  | MSetUpdateMeta => set_UpdatedAt (Some (now w)) b
  | MSetDeleteMeta => set_DeletedAt (Some (now w)) b
  | _ => b
  end.

Definition isSome {A : Type} (o : option A) : bool :=
  match o with Some _ => true | None => false end.

(** What a call of [m] hands back on the record [b]. *)
Definition answer (m : Method) (b : BaseCollection) : Value :=
  match m with
  | MSetInsertMeta | MSetUpdateMeta | MSetDeleteMeta => VNone
  | MIsDeleted => VBool (isSome (DeletedAt b))
  | MGetID => VString (primitive.Hex (Oid b))
  | MGetCreatedAt => VTime (CreatedAt b)
  | MGetUpdatedAt => VTimePtr (UpdatedAt b)
  | MGetDeletedAt => VTimePtr (DeletedAt b)
  end.

(** The same for a sequence of calls, as [call_invokeAll] proves. *)
Fixpoint effectAll (ms : list Method) (w : World) (b : BaseCollection)
  : BaseCollection :=
  match ms with
  | [] => b
  | m :: rest =>
      effectAll rest (later (readsOf m) (idsOf m) w) (effect m w b)
  end.

Fixpoint answers (ms : list Method) (w : World) (b : BaseCollection)
  : list Value :=
  match ms with
  | [] => []
  | m :: rest =>
      answer m b :: answers rest (later (readsOf m) (idsOf m) w) (effect m w b)
  end.

(* ================================================================== *)
(** ** The repository of [examples/mongodb/main.go] *)
(* ================================================================== *)

(** [type User struct]: the embedded [BaseCollection] and four fields of
    its own. *)
Record User : Type := mkUser {
  User_BaseCollection : BaseCollection;
  Name : string;
  Email : string;
  Age : Z;
  IsActive : bool
}.

Definition withBase (b : BaseCollection) (u : User) : User :=
  {| User_BaseCollection := b; Name := Name u; Email := Email u;
     Age := Age u; IsActive := IsActive u |}.

(** A Go [error], by its message. *)
Definition error : Type := string.

(** The values the repository puts into a [bson.M].  A [bson.M] is a Go
    map; it is kept as the list of its entries, whose order carries no
    meaning. *)
#[warnings="-register-all"]
Inductive bsonValue : Type :=
| BObjectID (v : primitive.ObjectID)
| BString (v : string)
| BInt (v : Z)
| BBool (v : bool)
| BTimePtr (v : option time.Time)
| BM (v : list (string * bsonValue)).

Definition bsonM : Type := list (string * bsonValue).

Fixpoint lookupM (key : string) (m : bsonM) : option bsonValue :=
  match m with
  | [] => None
  | (k, v) :: rest => if String.eqb key k then Some v else lookupM key rest
  end.

Definition keysM (m : bsonM) : list string := map fst m.

(** What the repository asks of the driver. *)
Inductive Request : Type :=
| ReqInsertOne (document : User)
| ReqUpdateOne (filter update : bsonM)
| ReqFindOne (filter : bsonM)
| ReqFind (filter : bsonM)
| ReqCursorClose.

(** The driver and the server behind it, which the repository only
    calls: [ObjectIDFromHex] parses an identifier, and the four
    operations of [*mongo.Collection] answer given the requests sent
    before.  A cursor is the list of what [Decode] yields for each
    document [Next] steps to. *)
Record Driver : Type := mkDriver {
  ObjectIDFromHex : string -> error + primitive.ObjectID;
  InsertOne : list Request -> User -> option error;
  UpdateOne : list Request -> bsonM -> bsonM -> option error;
  FindOneDecode : list Request -> bsonM -> error + User;
  FindCursor : list Request -> bsonM -> error + list (error + User)
}.

(** The state a method of [*UserRepository] runs in: what the argument
    [user] points at ([None] when it is nil or there is none), the
    world, the driver and the requests sent so far. *)
Record Session : Type := mkSession {
  subject : option User;
  world : World;
  driver : Driver;
  sent : list Request
}.

Definition repo : Type -> Type := stateT Session (sum Panic).

(** A method of the embedded [BaseCollection], or a function of the
    world, called from the repository: it runs on the record inside
    [user]. *)
Definition promoted {A : Type} (body : go A) : repo A :=
  s <- get ;;
  match runStateT body {| this := option_map User_BaseCollection (subject s);
                          ambient := world s |} with
  | inl p => raise p
  | inr (a, m) =>
      put {| subject := match subject s, this m with
                        | Some u, Some b => Some (withBase b u)
                        | _, _ => subject s
                        end;
             world := ambient m;
             driver := driver s;
             sent := sent s |} ;;
      ret a
  end.

(** Reading [*user]. *)
Definition deref : repo User :=
  s <- get ;;
  match subject s with
  | Some u => ret u
  | None => raise nilDereference
  end.

Definition send (r : Request) : repo unit :=
  s <- get ;;
  put {| subject := subject s; world := world s; driver := driver s;
         sent := sent s ++ [r] |}.

(** [r.collection.InsertOne(context.TODO(), user)], its error. *)
Definition collection_InsertOne (user : User) : repo (option error) :=
  s <- get ;;
  send (ReqInsertOne user) ;;
  ret (InsertOne (driver s) (sent s) user).

(** [r.collection.UpdateOne(context.TODO(), filter, update)], its error. *)
Definition collection_UpdateOne (filter update : bsonM) : repo (option error) :=
  s <- get ;;
  send (ReqUpdateOne filter update) ;;
  ret (UpdateOne (driver s) (sent s) filter update).

(** [r.collection.FindOne(context.TODO(), filter).Decode(&user)]. *)
Definition collection_FindOne_Decode (filter : bsonM) : repo (error + User) :=
  s <- get ;;
  send (ReqFindOne filter) ;;
  ret (FindOneDecode (driver s) (sent s) filter).

(** [r.collection.Find(context.TODO(), filter)]. *)
Definition collection_Find (filter : bsonM) : repo (error + list (error + User)) :=
  s <- get ;;
  send (ReqFind filter) ;;
  ret (FindCursor (driver s) (sent s) filter).

(** [cursor.Close(context.TODO())]. *)
Definition cursor_Close : repo unit := send ReqCursorClose.

(** [primitive.ObjectIDFromHex(id)]. *)
Definition primitive_ObjectIDFromHex (id : string)
  : repo (error + primitive.ObjectID) :=
  s <- get ;;
  ret (ObjectIDFromHex (driver s) id).

(** [func (r *UserRepository) Create(user *User) error] *)
Definition Create : repo (option error) :=
  promoted SetInsertMeta ;;
  user <- deref ;;
  collection_InsertOne user.

(** [func (r *UserRepository) FindByID(id string)], which returns a
    [*User] and an [error]. *)
Definition FindByID (id : string) : repo (error + User) :=
  parsed <- primitive_ObjectIDFromHex id ;;
  match parsed with
  | inl err => ret (inl err)
  | inr objID =>
      let filter :=
        [("_id", BObjectID objID);
         ("deleted_at", BM [("$exists", BBool false)])]%string in
      collection_FindOne_Decode filter
  end.

(** The loop over a cursor: [for cursor.Next(...) { ... Decode ...;
    users = append(users, &user) }], which returns at the first document
    that does not decode. *)
Fixpoint decodeLoop (cursor : list (error + User)) (users : list User)
  : error + list User :=
  match cursor with
  | [] => inr users
  | inl err :: _ => inl err
  | inr user :: rest => decodeLoop rest (users ++ [user])
  end.

(** [func (r *UserRepository) FindAll() ([]*User, error)]; the deferred
    [cursor.Close] runs on the way out. *)
Definition FindAll : repo (error + list User) :=
  let filter := [("deleted_at", BM [("$exists", BBool false)])]%string in
  found <- collection_Find filter ;;
  match found with
  | inl err => ret (inl err)
  | inr cursor =>
      let result := decodeLoop cursor [] in
      cursor_Close ;;
      ret result
  end.

(** [func (r *UserRepository) Update(id string, user *User) error] *)
Definition Update (id : string) : repo (option error) :=
  parsed <- primitive_ObjectIDFromHex id ;;
  match parsed with
  | inl err => ret (Some err)
  | inr objID =>
      promoted SetUpdateMeta ;;
      let filter :=
        [("_id", BObjectID objID);
         ("deleted_at", BM [("$exists", BBool false)])]%string in
      user <- deref ;;
      let update :=
        [("$set",
          BM [("name", BString (Name user));
              ("email", BString (Email user));
              ("age", BInt (Age user));
              ("is_active", BBool (IsActive user));
              ("updated_at", BTimePtr (UpdatedAt (User_BaseCollection user)))])
        ]%string in
      collection_UpdateOne filter update
  end.

(** [func (r *UserRepository) SoftDelete(id string) error] *)
Definition SoftDelete (id : string) : repo (option error) :=
  parsed <- primitive_ObjectIDFromHex id ;;
  match parsed with
  | inl err => ret (Some err)
  | inr objID =>
      now <- promoted time_Now ;;
      let filter := [("_id", BObjectID objID)]%string in
      let update :=
        [("$set", BM [("deleted_at", BTimePtr (Some now))])]%string in
      collection_UpdateOne filter update
  end.

(** [func (r *UserRepository) FindDeleted() ([]*User, error)] *)
Definition FindDeleted : repo (error + list User) :=
  let filter := [("deleted_at", BM [("$exists", BBool true)])]%string in
  found <- collection_Find filter ;;
  match found with
  | inl err => ret (inl err)
  | inr cursor =>
      let result := decodeLoop cursor [] in
      cursor_Close ;;
      ret result
  end.

(** Running a method of the repository for the user [u]. *)
Definition serve {A : Type} (body : repo A) (u : User) (w : World)
           (d : Driver) (log : list Request) : Panic + (A * Session) :=
  runStateT body {| subject := Some u; world := w; driver := d; sent := log |}.

(** A user as [main] builds one, not yet inserted. *)
Definition alice : User :=
  {| User_BaseCollection := zeroBaseCollection;
     Name := "Alice Johnson"; Email := "alice@example.com";
     Age := 28; IsActive := true |}.

Definition errInvalidHex : error :=
  "the provided hex string is not a valid ObjectID"%string.

Definition errNoDocuments : error := "mongo: no documents in result"%string.

(** A driver that knows one identifier and finds nothing. *)
Definition sampleDriver : Driver :=
  {| ObjectIDFromHex := fun s =>
       if String.eqb s "507f1f77bcf86cd799439011"
       then inr (counterID 4427793) else inl errInvalidHex;
     InsertOne := fun _ _ => None;
     UpdateOne := fun _ _ _ => None;
     FindOneDecode := fun _ _ => inl errNoDocuments;
     FindCursor := fun _ _ => inr [] |}.

(* ================================================================== *)
(** ** The hexadecimal rendering *)
(* ================================================================== *)

Example counterID_Hex :
  primitive.Hex (counterID 4427793) = "507f1f77bcf86cd799439011"%string.
Proof. vm_compute. reflexivity. Qed.

Example NilObjectID_Hex : primitive.Hex primitive.NilObjectID = zeroHex.
Proof. reflexivity. Qed.





(** Reading the two digits of a byte back gives the byte. *)
Lemma fromHexChar_hi (v : byte) :
  hex.fromHexChar (hex.digit (N.shiftr (Byte.to_N v) 4))
  = Some (N.shiftr (Byte.to_N v) 4).
Proof. destruct v; reflexivity. Qed.

Lemma fromHexChar_lo (v : byte) :
  hex.fromHexChar (hex.digit (N.land (Byte.to_N v) 15))
  = Some (N.land (Byte.to_N v) 15).
Proof. destruct v; reflexivity. Qed.

Lemma nibbles_value (v : byte) :
  (16 * N.shiftr (Byte.to_N v) 4 + N.land (Byte.to_N v) 15)%N = Byte.to_N v.
Proof. destruct v; reflexivity. Qed.

Lemma Decode_Encode (src : list byte) :
  hex.Decode (hex.Encode src) = Some (map Byte.to_N src).
Proof.
  induction src as [|v src IH].
  - reflexivity.
  - cbn [hex.Encode hex.Decode map].
    rewrite fromHexChar_hi, fromHexChar_lo, IH, nibbles_value. reflexivity.
Qed.

Lemma to_N_inj (a b : byte) : Byte.to_N a = Byte.to_N b -> a = b.
Proof.
  intros H. assert (E : Some a = Some b).
  { rewrite <- (Byte.of_to_N a), <- (Byte.of_to_N b), H. reflexivity. }
  now inversion E.
Qed.

Lemma map_to_N_inj (l1 l2 : list byte) :
  map Byte.to_N l1 = map Byte.to_N l2 -> l1 = l2.
Proof.
  revert l2. induction l1 as [|a l1 IH]; intros [|b l2] H; simpl in H;
    try discriminate; [reflexivity|].
  inversion H as [[Hab Hl]]. f_equal; [now apply to_N_inj | now apply IH].
Qed.

Lemma Encode_inj (l1 l2 : list byte) :
  hex.Encode l1 = hex.Encode l2 -> l1 = l2.
Proof.
  intros H. apply map_to_N_inj.
  assert (E : Some (map Byte.to_N l1) = Some (map Byte.to_N l2)).
  { rewrite <- !Decode_Encode, H. reflexivity. }
  now inversion E.
Qed.



Lemma Hex_inj (a b : primitive.ObjectID) :
  primitive.Hex a = primitive.Hex b -> a = b.
Proof.
  unfold primitive.Hex. intros H.
  apply Vector.to_list_inj, Encode_inj.
  rewrite <- (list_ascii_of_string_of_list_ascii (hex.Encode (Vector.to_list a))),
          <- (list_ascii_of_string_of_list_ascii (hex.Encode (Vector.to_list b))), H.
  reflexivity.
Qed.



(* ================================================================== *)
(** ** One call *)
(* ================================================================== *)

Lemma call_SetInsertMeta (b : BaseCollection) (w : World) :
  call SetInsertMeta b w =
  inr (tt, {| this := Some (set_CreatedAt (now w) (set_Oid (nextID w) b));
              ambient := later 1 1 w |}).
Proof. reflexivity. Qed.

Lemma call_SetUpdateMeta (b : BaseCollection) (w : World) :
  call SetUpdateMeta b w =
  inr (tt, {| this := Some (set_UpdatedAt (Some (now w)) b);
              ambient := later 1 0 w |}).
Proof. reflexivity. Qed.

Lemma call_SetDeleteMeta (b : BaseCollection) (w : World) :
  call SetDeleteMeta b w =
  inr (tt, {| this := Some (set_DeletedAt (Some (now w)) b);
              ambient := later 1 0 w |}).
Proof. reflexivity. Qed.

(** A getter hands back [field b] and touches neither record nor world. *)
Lemma call_load {A : Type} (field : BaseCollection -> A)
      (b : BaseCollection) (w : World) :
  call (load field) b w = inr (field b, {| this := Some b; ambient := w |}).
Proof. reflexivity. Qed.

Lemma later_0_0 (w : World) : later 0 0 w = w.
Proof. destruct w; reflexivity. Qed.

Lemma later_later (k1 i1 k2 i2 : nat) (w : World) :
  later k2 i2 (later k1 i1 w) = later (k1 + k2) (i1 + i2) w.
Proof.
  unfold later; cbn. f_equal; lia.
Qed.

(** Every method dereferences its receiver: through a nil receiver each
    one panics. *)
Lemma nil_receiver_panics (m : Method) (w : World) :
  callNil (invoke m) w = inl nilDereference.
Proof. destruct m; reflexivity. Qed.

(** On a record, a call returns, and the world moves on by what the
    method reads. *)
Lemma invoke_returns (m : Method) (b : BaseCollection) (w : World) :
  exists v b',
    call (invoke m) b w =
    inr (v, {| this := Some b'; ambient := later (readsOf m) (idsOf m) w |}).
Proof.
  destruct m; cbn [readsOf idsOf]; rewrite ?later_0_0;
    do 2 eexists; reflexivity.
Qed.

(** The concrete example of the specification: insert at [T0], update
    ten milliseconds later, delete after another ten. *)
Example lifecycle_run :
  exists s,
    call (invokeAll [MSetInsertMeta; MGetID; MGetCreatedAt; MIsDeleted;
                     MSetUpdateMeta; MGetUpdatedAt;
                     MSetDeleteMeta; MGetDeletedAt; MIsDeleted])
         zeroBaseCollection tickingWorld
    = inr ([VNone; VString "507f1f77bcf86cd799439011"; VTime releaseDay;
            VBool false;
            VNone; VTimePtr (Some (releaseDay + 10000000)%Z);
            VNone; VTimePtr (Some (releaseDay + 20000000)%Z); VBool true], s).
Proof. eexists. reflexivity. Qed.

(* ================================================================== *)
(** ** Sequences of calls *)
(* ================================================================== *)

Lemma invokeAll_cons (m : Method) (ms : list Method) (s : Machine) :
  runStateT (invokeAll (m :: ms)) s =
  match runStateT (invoke m) s with
  | inl e => inl e
  | inr (v, s') =>
      match runStateT (invokeAll ms) s' with
      | inl e => inl e
      | inr (vs, s'') => inr (v :: vs, s'')
      end
  end.
Proof.
  cbn. destruct (runStateT (invoke m) s) as [e|[v s']]; [reflexivity|].
  cbn. destruct (runStateT (invokeAll ms) s') as [e|[vs s'']]; reflexivity.
Qed.

(** A property of the record that every allowed call keeps is kept by
    every sequence of allowed calls; the sequence returns, having read
    the clock and the generator as often as its calls do. *)
Lemma invokeAll_invariant (P : BaseCollection -> Prop) (allowed : Method -> bool) :
  (forall m b w v b' w',
      allowed m = true -> P b ->
      call (invoke m) b w = inr (v, {| this := Some b'; ambient := w' |}) ->
      P b') ->
  forall ms b w,
    forallb allowed ms = true -> P b ->
    exists vs b',
      call (invokeAll ms) b w =
      inr (vs, {| this := Some b';
                  ambient := later (readsOfAll ms) (idsOfAll ms) w |})
      /\ P b'.
Proof.
  intros Hstep ms. induction ms as [|m ms IH]; intros b w Hall HP.
  - exists [], b. split; [|exact HP].
    unfold call, readsOfAll, idsOfAll; cbn. now rewrite later_0_0.
  - cbn [forallb] in Hall. apply andb_prop in Hall as [Hm Hms].
    destruct (invoke_returns m b w) as (v & b1 & E1).
    pose proof (Hstep _ _ _ _ _ _ Hm HP E1) as HP1.
    destruct (IH b1 (later (readsOf m) (idsOf m) w) Hms HP1) as (vs & b2 & E2 & HP2).
    exists (v :: vs), b2. split; [|exact HP2].
    unfold call in *. rewrite invokeAll_cons, E1, E2, later_later.
    reflexivity.
Qed.

Lemma invokeAll_returns (ms : list Method) (b : BaseCollection) (w : World) :
  exists vs b',
    call (invokeAll ms) b w =
    inr (vs, {| this := Some b';
                ambient := later (readsOfAll ms) (idsOfAll ms) w |}).
Proof.
  destruct (invokeAll_invariant (fun _ => True) (fun _ => true)
              (fun _ _ _ _ _ _ _ _ _ => I) ms b w) as (vs & b' & E & _).
  - now induction ms.
  - exact I.
  - now exists vs, b'.
Qed.

(** Without a call of [SetInsertMeta], a sequence of calls leaves [Oid]
    and [CreatedAt] as they are. *)
Lemma identity_kept_without_insert (ms : list Method) (b : BaseCollection) (w : World) :
  forallb (fun m => negb (isInsert m)) ms = true ->
  exists vs b',
    call (invokeAll ms) b w =
    inr (vs, {| this := Some b';
                ambient := later (readsOfAll ms) (idsOfAll ms) w |})
    /\ Oid b' = Oid b /\ CreatedAt b' = CreatedAt b.
Proof.
  intros Hms.
  apply (invokeAll_invariant
           (fun b' => Oid b' = Oid b /\ CreatedAt b' = CreatedAt b)
           (fun m => negb (isInsert m))); [|exact Hms|now split].
  intros m b1 w1 v b2 w2 Hm [HO HC] E.
  destruct m; try discriminate Hm; inversion E; subst; cbn; now split.
Qed.

(* ================================================================== *)
(** ** The lifecycle contract *)
(* ================================================================== *)

(** C1.  The identifier and the creation time are stable: from every
    record state, a sequence of calls of any methods other than
    [SetInsertMeta] (the two other setters, [IsDeleted], the getters)
    returns with [Oid] and [CreatedAt] unchanged; in particular the
    values an insert has set, the generated identifier and the clock
    reading of the insert, are still there after any such sequence. *)
Theorem C1_identity_survives_other_calls
        (ms : list Method) (b : BaseCollection) (w : World) :
  forallb (fun m => negb (isInsert m)) ms = true ->
  (exists vs b' w',
      call (invokeAll ms) b w = inr (vs, {| this := Some b'; ambient := w' |})
      /\ Oid b' = Oid b /\ CreatedAt b' = CreatedAt b)
  /\
  (exists vs b' w',
      call (invokeAll (MSetInsertMeta :: ms)) b w =
      inr (VNone :: vs, {| this := Some b'; ambient := w' |})
      /\ Oid b' = nextID w /\ CreatedAt b' = now w).
Proof.
  intros Hms. split.
  - destruct (identity_kept_without_insert ms b w Hms) as (vs & b' & E & HO & HC).
    now exists vs, b', (later (readsOfAll ms) (idsOfAll ms) w).
  - destruct (identity_kept_without_insert ms
                (set_CreatedAt (now w) (set_Oid (nextID w) b)) (later 1 1 w) Hms)
      as (vs & b' & E & HO & HC).
    exists vs, b', (later (readsOfAll ms) (idsOfAll ms) (later 1 1 w)).
    split; [|now split].
    unfold call in *. rewrite invokeAll_cons.
    change (runStateT (invoke MSetInsertMeta) {| this := Some b; ambient := w |})
      with (@inr Panic _ (VNone, {| this := Some (set_CreatedAt (now w) (set_Oid (nextID w) b));
                                    ambient := later 1 1 w |})).
    cbv beta iota. rewrite E. reflexivity.
Qed.

(** The full lifecycle of the test suite, on a fresh record: insert, two
    updates, delete, with reads in between. *)
Lemma C1_identity_survives_other_calls_witness :
  forallb (fun m => negb (isInsert m))
          [MSetUpdateMeta; MGetID; MSetUpdateMeta; MGetCreatedAt;
           MSetDeleteMeta; MIsDeleted; MGetUpdatedAt; MGetDeletedAt] = true
  /\
  exists vs b' w',
    call (invokeAll
            [MSetInsertMeta; MSetUpdateMeta; MGetID; MSetUpdateMeta; MGetCreatedAt;
             MSetDeleteMeta; MIsDeleted; MGetUpdatedAt; MGetDeletedAt])
         zeroBaseCollection tickingWorld
    = inr (VNone :: vs, {| this := Some b'; ambient := w' |})
    /\ Oid b' = nextID tickingWorld /\ CreatedAt b' = now tickingWorld.
Proof.
  split; [reflexivity|].
  exact (proj2 (C1_identity_survives_other_calls
                  [MSetUpdateMeta; MGetID; MSetUpdateMeta; MGetCreatedAt;
                   MSetDeleteMeta; MIsDeleted; MGetUpdatedAt; MGetDeletedAt]
                  zeroBaseCollection tickingWorld eq_refl)).
Defined.

(** C2.  On every record state [SetUpdateMeta] returns, having stored the
    clock reading of the call in [UpdatedAt] and left [Oid], [CreatedAt]
    and [DeletedAt] as they were. *)
Theorem C2_SetUpdateMeta_frame (b : BaseCollection) (w : World) :
  exists b',
    call SetUpdateMeta b w =
    inr (tt, {| this := Some b'; ambient := later 1 0 w |})
    /\ UpdatedAt b' = Some (now w)
    /\ Oid b' = Oid b
    /\ CreatedAt b' = CreatedAt b
    /\ DeletedAt b' = DeletedAt b.
Proof.
  exists (set_UpdatedAt (Some (now w)) b).
  rewrite call_SetUpdateMeta. repeat split.
Qed.

(** C3.  On every record state [SetDeleteMeta] returns, having stored the
    clock reading of the call in [DeletedAt] and left [Oid], [CreatedAt]
    and [UpdatedAt] as they were; called again on the record it has just
    marked deleted, it returns again and [DeletedAt] holds the reading of
    the second call. *)
Theorem C3_SetDeleteMeta_frame (b : BaseCollection) (w : World) :
  exists b' b'',
    call SetDeleteMeta b w =
    inr (tt, {| this := Some b'; ambient := later 1 0 w |})
    /\ DeletedAt b' = Some (now w)
    /\ Oid b' = Oid b
    /\ CreatedAt b' = CreatedAt b
    /\ UpdatedAt b' = UpdatedAt b
    /\ call SetDeleteMeta b' (later 1 0 w) =
       inr (tt, {| this := Some b''; ambient := later 2 0 w |})
    /\ DeletedAt b'' = Some (wallClock w (S (clockReads w)))
    /\ Oid b'' = Oid b
    /\ CreatedAt b'' = CreatedAt b
    /\ UpdatedAt b'' = UpdatedAt b.
Proof.
  exists (set_DeletedAt (Some (now w)) b).
  exists (set_DeletedAt (Some (now (later 1 0 w)))
            (set_DeletedAt (Some (now w)) b)).
  rewrite !call_SetDeleteMeta. repeat split.
Qed.

(** C4.  On every record state [IsDeleted] returns [true] exactly when
    [DeletedAt] is not nil, and changes nothing.  No other field and
    nothing of the world takes part: whatever [Oid], [CreatedAt] and
    [UpdatedAt] are replaced by, the answer is the same. *)
Theorem C4_IsDeleted_iff_DeletedAt_present (b : BaseCollection) (w : World) :
  exists v,
    call IsDeleted b w = inr (v, {| this := Some b; ambient := w |})
    /\ (v = true <-> DeletedAt b <> None)
    /\ (forall oid created updated w2,
          let b2 := {| Oid := oid; CreatedAt := created;
                       UpdatedAt := updated; DeletedAt := DeletedAt b |} in
          call IsDeleted b2 w2 = inr (v, {| this := Some b2; ambient := w2 |})).
Proof.
  exists (match DeletedAt b with Some _ => true | None => false end).
  split; [reflexivity|]. split; [|reflexivity].
  destruct (DeletedAt b); split; intros H; congruence.
Qed.

(** C5.  On a freshly constructed record [GetID] returns the string of
    twenty-four zeros, [GetCreatedAt] the zero time, [GetUpdatedAt] and
    [GetDeletedAt] nil, and [IsDeleted] false. *)
Theorem C5_fresh_record_reads (w : World) :
  let fresh := {| this := Some zeroBaseCollection; ambient := w |} in
  call GetID zeroBaseCollection w = inr ("000000000000000000000000"%string, fresh)
  /\ String.length "000000000000000000000000" = 24
  /\ call GetCreatedAt zeroBaseCollection w = inr (time.zero, fresh)
  /\ time.IsZero time.zero = true
  /\ call GetUpdatedAt zeroBaseCollection w = inr (None, fresh)
  /\ call GetDeletedAt zeroBaseCollection w = inr (None, fresh)
  /\ call IsDeleted zeroBaseCollection w = inr (false, fresh).
Proof. repeat split. Qed.

(** C10.  [SetInsertMeta] leaves [UpdatedAt] and [DeletedAt] of every
    record state as they are, present or not; so a soft-deleted record
    is still soft-deleted after an insert: delete, insert, [IsDeleted]
    answers [true]. *)
Theorem C10_SetInsertMeta_keeps_update_and_delete_marks
        (b : BaseCollection) (w : World) :
  (exists b',
      call SetInsertMeta b w =
      inr (tt, {| this := Some b'; ambient := later 1 1 w |})
      /\ UpdatedAt b' = UpdatedAt b
      /\ DeletedAt b' = DeletedAt b)
  /\
  (exists s,
      call (invokeAll [MSetDeleteMeta; MSetInsertMeta; MIsDeleted]) b w =
      inr ([VNone; VNone; VBool true], s))
  /\
  (forall t, DeletedAt b = Some t ->
     exists s,
       call (invokeAll [MSetInsertMeta; MIsDeleted; MGetDeletedAt]) b w =
       inr ([VNone; VBool true; VTimePtr (Some t)], s)).
Proof.
  split; [|split].
  - exists (set_CreatedAt (now w) (set_Oid (nextID w) b)).
    rewrite call_SetInsertMeta. repeat split.
  - eexists. reflexivity.
  - intros t Ht. eexists. unfold call. cbn. rewrite Ht. reflexivity.
Qed.

(** A record stored as soft-deleted is inserted once more. *)
Lemma C10_SetInsertMeta_keeps_update_and_delete_marks_witness :
  exists s,
    call (invokeAll [MSetInsertMeta; MIsDeleted; MGetDeletedAt])
         storedRecord tickingWorld =
    inr ([VNone; VBool true; VTimePtr (Some (releaseDay + 7000000)%Z)], s).
Proof.
  exact (proj2 (proj2 (C10_SetInsertMeta_keeps_update_and_delete_marks
                         storedRecord tickingWorld))
               (releaseDay + 7000000)%Z eq_refl).
Defined.

(** C9.  Each of the eight methods returns on every record state, in
    every world, without a panic and with no error among its results;
    so does every sequence of calls, in whatever order.  On a record
    that was never inserted, [SetUpdateMeta] and [SetDeleteMeta] return
    like anywhere else: they stamp the record and leave its identifier
    zero. *)
Theorem C9_methods_are_total (b : BaseCollection) (w : World) :
  (exists s, call SetInsertMeta b w = inr (tt, s))
  /\ (exists s, call SetUpdateMeta b w = inr (tt, s))
  /\ (exists s, call SetDeleteMeta b w = inr (tt, s))
  /\ (exists v s, call IsDeleted b w = inr (v, s))
  /\ (exists v s, call GetID b w = inr (v, s))
  /\ (exists v s, call GetCreatedAt b w = inr (v, s))
  /\ (exists v s, call GetUpdatedAt b w = inr (v, s))
  /\ (exists v s, call GetDeletedAt b w = inr (v, s))
  /\ (forall ms : list Method,
        exists vs b' w',
          call (invokeAll ms) b w = inr (vs, {| this := Some b'; ambient := w' |}))
  /\ (exists b',
        call SetUpdateMeta zeroBaseCollection w =
        inr (tt, {| this := Some b'; ambient := later 1 0 w |})
        /\ UpdatedAt b' = Some (now w)
        /\ primitive.IsZero (Oid b') = true)
  /\ (exists b',
        call SetDeleteMeta zeroBaseCollection w =
        inr (tt, {| this := Some b'; ambient := later 1 0 w |})
        /\ DeletedAt b' = Some (now w)
        /\ primitive.IsZero (Oid b') = true).
Proof.
  repeat match goal with |- _ /\ _ => split end;
    try (do 2 eexists; reflexivity); try (eexists; reflexivity).
  - intros ms. destruct (invokeAll_returns ms b w) as (vs & b' & E).
    now exists vs, b', (later (readsOfAll ms) (idsOfAll ms) w).
  - eexists. rewrite call_SetUpdateMeta. repeat split.
  - eexists. rewrite call_SetDeleteMeta. repeat split.
Qed.

Lemma eqb_spec (a b : primitive.ObjectID) :
  primitive.eqb a b = true <-> a = b.
Proof.
  unfold primitive.eqb. apply Vector.eqb_eq.
  intros x y. split; [apply Byte.byte_dec_bl | apply Byte.byte_dec_lb].
Qed.

Lemma eqb_false_neq (a b : primitive.ObjectID) :
  primitive.eqb a b = false -> a <> b.
Proof.
  intros H E. apply eqb_spec in E. congruence.
Qed.


Lemma tickingWorld_fresh : freshUpTo tickingWorld 3.
Proof.
  intros i j Hij Hj. apply eqb_false_neq.
  destruct j as [|[|[|j]]]; try lia;
    destruct i as [|[|i]]; try lia; vm_compute; reflexivity.
Qed.




(** Calls that are not the setter of a stamp leave the stamp alone. *)
Lemma stamp_kept_by_other_calls
      (k : Stamp) (ms : list Method) (b : BaseCollection) (w : World) :
  forallb (fun m => negb (setsStamp k m)) ms = true ->
  exists vs b',
    call (invokeAll ms) b w =
    inr (vs, {| this := Some b';
                ambient := later (readsOfAll ms) (idsOfAll ms) w |})
    /\ stampOf k b' = stampOf k b.
Proof.
  intros Hms.
  apply (invokeAll_invariant (fun b' => stampOf k b' = stampOf k b)
           (fun m => negb (setsStamp k m))); [|exact Hms|reflexivity].
  intros m b1 w1 v b2 w2 Hm HP E.
  destruct k, m; try discriminate Hm; inversion E; subst; exact HP.
Qed.

(** No call takes a stamp away. *)
Lemma stamp_never_cleared
      (k : Stamp) (ms : list Method) (b : BaseCollection) (w : World) :
  stampOf k b <> None ->
  exists vs b',
    call (invokeAll ms) b w =
    inr (vs, {| this := Some b';
                ambient := later (readsOfAll ms) (idsOfAll ms) w |})
    /\ stampOf k b' <> None.
Proof.
  intros Hset.
  apply (invokeAll_invariant (fun b' => stampOf k b' <> None) (fun _ => true));
    [|now induction ms|exact Hset].
  intros m b1 w1 v b2 w2 _ HP E.
  destruct k, m; inversion E; subst; cbn; try exact HP; discriminate.
Qed.

Lemma call_stampSetter (k : Stamp) (b : BaseCollection) (w : World) :
  exists b',
    call (invoke (stampSetter k)) b w =
    inr (VNone, {| this := Some b'; ambient := later 1 0 w |})
    /\ stampOf k b' = Some (now w).
Proof. destruct k; eexists; split; reflexivity. Qed.

(** C7, as the code has it.  Once [UpdatedAt] (or [DeletedAt]) is
    present, no sequence of calls makes it nil again.  A call of its
    setter stores the clock reading of the call; calls of other methods
    leave that reading in place; the next call of the setter overwrites
    it with its own reading, which under a clock that never runs
    backwards is not before the one the field held, and is after it when
    the two readings differ. *)
Theorem C7_stamps_are_kept_and_refreshed
        (k : Stamp) (ms : list Method) (b : BaseCollection) (w : World) :
  monotoneClock w ->
  forallb (fun m => negb (setsStamp k m)) ms = true ->
  (forall (ms' : list Method) (b0 : BaseCollection) (w0 : World),
      stampOf k b0 <> None ->
      exists vs b' w',
        call (invokeAll ms') b0 w0 =
        inr (vs, {| this := Some b'; ambient := w' |})
        /\ stampOf k b' <> None)
  /\
  exists b1 vs b2 w2 b3,
    call (invoke (stampSetter k)) b w =
    inr (VNone, {| this := Some b1; ambient := later 1 0 w |})
    /\ stampOf k b1 = Some (now w)
    /\ call (invokeAll ms) b1 (later 1 0 w) =
       inr (vs, {| this := Some b2; ambient := w2 |})
    /\ stampOf k b2 = Some (now w)
    /\ call (invoke (stampSetter k)) b2 w2 =
       inr (VNone, {| this := Some b3; ambient := later 1 0 w2 |})
    /\ stampOf k b3 = Some (now w2)
    /\ time.Before (now w2) (now w) = false
    /\ (now w2 <> now w -> time.After (now w2) (now w) = true).
Proof.
  intros Hmono Hms. split.
  - intros ms' b0 w0 Hset.
    destruct (stamp_never_cleared k ms' b0 w0 Hset) as (vs & b' & E & H).
    now exists vs, b', (later (readsOfAll ms') (idsOfAll ms') w0).
  - destruct (call_stampSetter k b w) as (b1 & E1 & H1).
    destruct (stamp_kept_by_other_calls k ms b1 (later 1 0 w) Hms)
      as (vs & b2 & E2 & H2).
    set (w2 := later (readsOfAll ms) (idsOfAll ms) (later 1 0 w)) in *.
    destruct (call_stampSetter k b2 w2) as (b3 & E3 & H3).
    exists b1, vs, b2, w2, b3.
    assert (Hle : (now w <= now w2)%Z).
    { unfold now, w2. cbn. apply Hmono. lia. }
    repeat match goal with |- _ /\ _ => split end; try assumption.
    + now rewrite H2.
    + unfold time.Before. apply Z.ltb_ge. exact Hle.
    + intros Hne. unfold time.After. apply Z.ltb_lt. lia.
Qed.

Lemma tickingWorld_monotone : monotoneClock tickingWorld.
Proof.
  intros i j Hij. unfold tickingWorld, wallClock, releaseDay.
  apply Z.add_le_mono_l, Z.mul_le_mono_nonneg_l; lia.
Qed.

(** Update, read, insert, update again under a ticking clock. *)
Lemma C7_stamps_are_kept_and_refreshed_witness :
  exists b1 vs b2 w2 b3,
    call (invoke MSetUpdateMeta) zeroBaseCollection tickingWorld =
    inr (VNone, {| this := Some b1; ambient := later 1 0 tickingWorld |})
    /\ UpdatedAt b1 = Some (now tickingWorld)
    /\ call (invokeAll [MGetUpdatedAt; MSetInsertMeta; MSetDeleteMeta])
            b1 (later 1 0 tickingWorld) =
       inr (vs, {| this := Some b2; ambient := w2 |})
    /\ UpdatedAt b2 = Some (now tickingWorld)
    /\ call (invoke MSetUpdateMeta) b2 w2 =
       inr (VNone, {| this := Some b3; ambient := later 1 0 w2 |})
    /\ UpdatedAt b3 = Some (now w2)
    /\ time.Before (now w2) (now tickingWorld) = false
    /\ (now w2 <> now tickingWorld -> time.After (now w2) (now tickingWorld) = true).
Proof.
  exact (proj2 (C7_stamps_are_kept_and_refreshed Updated
                  [MGetUpdatedAt; MSetInsertMeta; MSetDeleteMeta]
                  zeroBaseCollection tickingWorld
                  tickingWorld_monotone eq_refl)).
Defined.

(** C7, as the claim has it, fails where the clock does not move between
    two calls: the second [SetUpdateMeta] (or [SetDeleteMeta]) stores the
    reading the field already held, which is not a newer one.  It fails
    as well on a record whose stamp is ahead of the local clock, such as
    one stored by another host: the setter then puts an older time in
    its place. *)
Lemma C7_stalled_clock_counterexample :
  (exists t1 t2 s,
      call (invokeAll [MSetUpdateMeta; MGetUpdatedAt; MSetUpdateMeta; MGetUpdatedAt;
                       MSetDeleteMeta; MGetDeletedAt; MSetDeleteMeta; MGetDeletedAt])
           zeroBaseCollection stalledWorld
      = inr ([VNone; VTimePtr (Some t1); VNone; VTimePtr (Some t1);
              VNone; VTimePtr (Some t2); VNone; VTimePtr (Some t2)], s)
      /\ time.After t1 t1 = false
      /\ time.After t2 t2 = false)
  /\
  (exists held stored s,
      UpdatedAt storedRecord = Some held
      /\ call (invokeAll [MSetUpdateMeta; MGetUpdatedAt]) storedRecord tickingWorld
         = inr ([VNone; VTimePtr (Some stored)], s)
      /\ time.After stored held = false
      /\ time.Before stored held = true).
Proof.
  split.
  - exists releaseDay, releaseDay. eexists. repeat split.
  - exists (releaseDay + 5000000)%Z, releaseDay. eexists. repeat split.
Qed.

(* ================================================================== *)
(** ** Further properties of the record *)
(* ================================================================== *)

Lemma call_invoke (m : Method) (b : BaseCollection) (w : World) :
  call (invoke m) b w =
  inr (answer m b, {| this := Some (effect m w b);
                      ambient := later (readsOf m) (idsOf m) w |}).
Proof.
  destruct m; cbn [readsOf idsOf effect answer]; rewrite ?later_0_0;
    reflexivity.
Qed.

Lemma call_invokeAll (ms : list Method) (b : BaseCollection) (w : World) :
  call (invokeAll ms) b w =
  inr (answers ms w b,
       {| this := Some (effectAll ms w b);
          ambient := later (readsOfAll ms) (idsOfAll ms) w |}).
Proof.
  revert b w. induction ms as [|m ms IH]; intros b w.
  - unfold call, readsOfAll, idsOfAll; cbn. now rewrite later_0_0.
  - unfold call in *. rewrite invokeAll_cons.
    pose proof (call_invoke m b w) as E. unfold call in E. rewrite E.
    rewrite IH, later_later. reflexivity.
Qed.

Lemma readsOfAll_app (ms1 ms2 : list Method) :
  readsOfAll (ms1 ++ ms2) = readsOfAll ms1 + readsOfAll ms2.
Proof. unfold readsOfAll. now rewrite map_app, list_sum_app. Qed.

Lemma idsOfAll_app (ms1 ms2 : list Method) :
  idsOfAll (ms1 ++ ms2) = idsOfAll ms1 + idsOfAll ms2.
Proof. unfold idsOfAll. now rewrite map_app, list_sum_app. Qed.

Lemma effectAll_app (ms1 ms2 : list Method) (w : World) (b : BaseCollection) :
  effectAll (ms1 ++ ms2) w b =
  effectAll ms2 (later (readsOfAll ms1) (idsOfAll ms1) w) (effectAll ms1 w b).
Proof.
  revert w b. induction ms1 as [|m ms1 IH]; intros w b.
  - cbn. unfold readsOfAll, idsOfAll; cbn. now rewrite later_0_0.
  - cbn [app effectAll]. rewrite IH, later_later. reflexivity.
Qed.

Lemma effectAll_without_insert (ms : list Method) (w : World) (b : BaseCollection) :
  forallb (fun m => negb (isInsert m)) ms = true ->
  Oid (effectAll ms w b) = Oid b /\ CreatedAt (effectAll ms w b) = CreatedAt b.
Proof.
  revert w b. induction ms as [|m ms IH]; intros w b H; [now split|].
  cbn [forallb] in H. apply andb_prop in H as [Hm Hms].
  cbn [effectAll]. destruct (IH (later (readsOf m) (idsOf m) w) (effect m w b) Hms)
    as [HO HC].
  rewrite HO, HC. destruct m; try discriminate Hm; now split.
Qed.

Lemma effectAll_without_setter
      (k : Stamp) (ms : list Method) (w : World) (b : BaseCollection) :
  forallb (fun m => negb (setsStamp k m)) ms = true ->
  stampOf k (effectAll ms w b) = stampOf k b.
Proof.
  revert w b. induction ms as [|m ms IH]; intros w b H; [reflexivity|].
  cbn [forallb] in H. apply andb_prop in H as [Hm Hms].
  cbn [effectAll]. rewrite (IH _ _ Hms).
  destruct k, m; try discriminate Hm; reflexivity.
Qed.

(** X1.  Through a nil receiver, a sequence of calls panics at its first
    call with the nil-dereference of the runtime, whatever the method
    and whatever follows. *)
Theorem nil_receiver_panics_at_first_call
        (m : Method) (ms : list Method) (w : World) :
  callNil (invokeAll (m :: ms)) w = inl nilDereference.
Proof.
  unfold callNil. rewrite invokeAll_cons.
  pose proof (nil_receiver_panics m w) as E. unfold callNil in E.
  now rewrite E.
Qed.

(** X2.  The five reading methods are pure: a sequence of calls of
    [IsDeleted] and the getters leaves the record and the world exactly
    as they were, and each call in it hands back what a lone call on the
    record hands back. *)
Theorem readers_change_nothing (ms : list Method) (b : BaseCollection) (w : World) :
  forallb (fun m => negb (isSetter m)) ms = true ->
  exists vs,
    call (invokeAll ms) b w = inr (vs, {| this := Some b; ambient := w |})
    /\ Forall2 (fun m v =>
                  call (invoke m) b w = inr (v, {| this := Some b; ambient := w |}))
               ms vs.
Proof.
  intros H. induction ms as [|m ms IH].
  - exists []. split; [reflexivity | constructor].
  - cbn [forallb] in H. apply andb_prop in H as [Hm Hms].
    destruct (IH Hms) as (vs & E & HF).
    assert (Em : call (invoke m) b w =
                 inr (answer m b, {| this := Some b; ambient := w |})).
    { rewrite call_invoke.
      destruct m; try discriminate Hm; cbn [effect readsOf idsOf];
        now rewrite later_0_0. }
    exists (answer m b :: vs). split.
    + unfold call in *. rewrite invokeAll_cons, Em, E. reflexivity.
    + constructor; assumption.
Qed.

Lemma readers_change_nothing_witness :
  exists vs,
    call (invokeAll [MGetID; MIsDeleted; MGetDeletedAt; MGetID])
         storedRecord tickingWorld
    = inr (vs, {| this := Some storedRecord; ambient := tickingWorld |})
    /\ Forall2 (fun m v =>
                  call (invoke m) storedRecord tickingWorld
                  = inr (v, {| this := Some storedRecord; ambient := tickingWorld |}))
               [MGetID; MIsDeleted; MGetDeletedAt; MGetID] vs.
Proof.
  exact (readers_change_nothing [MGetID; MIsDeleted; MGetDeletedAt; MGetID]
           storedRecord tickingWorld eq_refl).
Defined.

Lemma isSome_effectAll (k : Stamp) (ms : list Method) (w : World) (b : BaseCollection) :
  isSome (stampOf k (effectAll ms w b))
  = isSome (stampOf k b) || existsb (setsStamp k) ms.
Proof.
  revert w b. induction ms as [|m ms IH]; intros w b.
  - cbn. now rewrite orb_false_r.
  - cbn [effectAll existsb]. rewrite IH.
    destruct k, m; cbn; rewrite ?orb_true_r, ?orb_false_r; try reflexivity;
      now destruct (UpdatedAt b), (DeletedAt b).
Qed.

(** X3.  After any sequence of calls a timestamp is present exactly when
    it was present before or its setter is among the calls; so
    [IsDeleted] answers [true] afterwards exactly when the record was
    deleted already or [SetDeleteMeta] was called: nothing else marks a
    record deleted and nothing unmarks it. *)
Theorem stamp_present_iff_set
        (k : Stamp) (ms : list Method) (b : BaseCollection) (w : World) :
  exists vs b' w',
    call (invokeAll ms) b w = inr (vs, {| this := Some b'; ambient := w' |})
    /\ isSome (stampOf k b') = isSome (stampOf k b) || existsb (setsStamp k) ms
    /\ call IsDeleted b' w' =
       inr (isSome (DeletedAt b) || existsb (setsStamp Deleted) ms,
            {| this := Some b'; ambient := w' |}).
Proof.
  exists (answers ms w b), (effectAll ms w b),
         (later (readsOfAll ms) (idsOfAll ms) w).
  split; [apply call_invokeAll|]. split; [apply isSome_effectAll|].
  pose proof (isSome_effectAll Deleted ms w b) as H. cbn [stampOf] in H.
  rewrite <- H. unfold call, IsDeleted, load; cbn.
  now destruct (DeletedAt (effectAll ms w b)).
Qed.

(** X4.  The last insert wins: after a sequence of calls whose last
    [SetInsertMeta] follows the calls [ms1], [Oid] is the identifier the
    generator issued at that insert and [CreatedAt] the clock reading
    taken by it, whatever the record held and whatever was called before
    or after. *)
Theorem last_insert_wins
        (ms1 ms2 : list Method) (b : BaseCollection) (w : World) :
  forallb (fun m => negb (isInsert m)) ms2 = true ->
  exists vs b' w',
    call (invokeAll (ms1 ++ MSetInsertMeta :: ms2)) b w =
    inr (vs, {| this := Some b'; ambient := w' |})
    /\ Oid b' = objectIDs w (idsOfAll ms1 + idsIssued w)
    /\ CreatedAt b' = wallClock w (readsOfAll ms1 + clockReads w).
Proof.
  intros H. do 3 eexists. split; [apply call_invokeAll|].
  rewrite effectAll_app. cbn [effectAll].
  destruct (effectAll_without_insert ms2
              (later (readsOf MSetInsertMeta) (idsOf MSetInsertMeta)
                 (later (readsOfAll ms1) (idsOfAll ms1) w))
              (effect MSetInsertMeta (later (readsOfAll ms1) (idsOfAll ms1) w)
                 (effectAll ms1 w b)) H) as [HO HC].
  rewrite HO, HC. split; reflexivity.
Qed.

Lemma last_insert_wins_witness :
  exists vs b' w',
    call (invokeAll ([MSetInsertMeta; MSetUpdateMeta]
                       ++ MSetInsertMeta :: [MSetDeleteMeta; MGetID]))
         storedRecord tickingWorld
    = inr (vs, {| this := Some b'; ambient := w' |})
    /\ Oid b' = objectIDs tickingWorld
                  (idsOfAll [MSetInsertMeta; MSetUpdateMeta] + idsIssued tickingWorld)
    /\ CreatedAt b' = wallClock tickingWorld
                        (readsOfAll [MSetInsertMeta; MSetUpdateMeta]
                         + clockReads tickingWorld).
Proof.
  exact (last_insert_wins [MSetInsertMeta; MSetUpdateMeta]
           [MSetDeleteMeta; MGetID] storedRecord tickingWorld eq_refl).
Defined.

(** X5.  The last stamp wins: after a sequence of calls whose last call
    of [SetUpdateMeta] (or [SetDeleteMeta]) follows the calls [ms1],
    [UpdatedAt] (or [DeletedAt]) points at the clock reading taken by
    that call. *)
Theorem last_stamp_wins
        (k : Stamp) (ms1 ms2 : list Method) (b : BaseCollection) (w : World) :
  forallb (fun m => negb (setsStamp k m)) ms2 = true ->
  exists vs b' w',
    call (invokeAll (ms1 ++ stampSetter k :: ms2)) b w =
    inr (vs, {| this := Some b'; ambient := w' |})
    /\ stampOf k b' = Some (wallClock w (readsOfAll ms1 + clockReads w)).
Proof.
  intros H. do 3 eexists. split; [apply call_invokeAll|].
  rewrite effectAll_app. cbn [effectAll].
  rewrite (effectAll_without_setter k ms2 _ _ H).
  destruct k; reflexivity.
Qed.

Lemma last_stamp_wins_witness :
  exists vs b' w',
    call (invokeAll ([MSetInsertMeta; MSetDeleteMeta; MGetDeletedAt]
                       ++ MSetDeleteMeta :: [MSetUpdateMeta; MSetInsertMeta]))
         zeroBaseCollection tickingWorld
    = inr (vs, {| this := Some b'; ambient := w' |})
    /\ DeletedAt b' = Some (wallClock tickingWorld
                              (readsOfAll [MSetInsertMeta; MSetDeleteMeta; MGetDeletedAt]
                               + clockReads tickingWorld)).
Proof.
  exact (last_stamp_wins Deleted [MSetInsertMeta; MSetDeleteMeta; MGetDeletedAt]
           [MSetUpdateMeta; MSetInsertMeta] zeroBaseCollection tickingWorld eq_refl).
Defined.

(** Where a timestamp of the record comes from: it was there before, or
    it is one of the clock readings the calls have taken. *)
Lemma stamp_provenance
      (k : Stamp) (ms : list Method) (w : World) (b : BaseCollection) (t : time.Time) :
  stampOf k (effectAll ms w b) = Some t ->
  stampOf k b = Some t
  \/ exists i, clockReads w <= i < readsOfAll ms + clockReads w
               /\ t = wallClock w i.
Proof.
  revert w b. induction ms as [|m ms IH]; intros w b H; [now left|].
  cbn [effectAll] in H. apply IH in H.
  assert (Hr : readsOfAll (m :: ms) = readsOf m + readsOfAll ms) by reflexivity.
  destruct H as [H|(i & Hi & Ht)].
  - destruct k, m; cbn in H; try (now left);
      right; exists (clockReads w); (split; [rewrite Hr; cbn; lia|]);
      unfold now in H; congruence.
  - right. exists i. cbn in Hi, Ht. split; [rewrite Hr; lia | exact Ht].
Qed.

(** X6.  If the clock never runs backwards, then after an insert and any
    further calls other than inserts, a timestamp of the record that was
    not there before the insert is not before [CreatedAt] and not after
    the next reading of the clock. *)
Theorem stamps_follow_creation
        (ms : list Method) (b : BaseCollection) (w : World) :
  monotoneClock w ->
  forallb (fun m => negb (isInsert m)) ms = true ->
  exists vs b' w',
    call (invokeAll (MSetInsertMeta :: ms)) b w =
    inr (VNone :: vs, {| this := Some b'; ambient := w' |})
    /\ CreatedAt b' = now w
    /\ forall k t,
         stampOf k b' = Some t ->
         stampOf k b = Some t
         \/ (time.Before t (CreatedAt b') = false
             /\ time.After t (now w') = false).
Proof.
  intros Hmono Hms.
  exists (answers ms (later 1 1 w) (effect MSetInsertMeta w b)),
         (effectAll (MSetInsertMeta :: ms) w b),
         (later (readsOfAll (MSetInsertMeta :: ms)) (idsOfAll (MSetInsertMeta :: ms)) w).
  split; [apply call_invokeAll|].
  cbn [effectAll readsOf idsOf].
  destruct (effectAll_without_insert ms (later 1 1 w) (effect MSetInsertMeta w b) Hms)
    as [_ HC].
  rewrite HC. split; [reflexivity|].
  intros k t Ht. apply stamp_provenance in Ht.
  destruct Ht as [Ht|(i & Hi & Ht)].
  - left. destruct k; exact Ht.
  - right. cbn in Hi, Ht. subst t. unfold time.Before, time.After.
    split; apply Z.ltb_ge.
    + change (wallClock w (clockReads w) <= wallClock w i)%Z.
      apply Hmono. lia.
    + change (wallClock w i
              <= wallClock w (S (readsOfAll ms) + clockReads w))%Z.
      apply Hmono. lia.
Qed.

(** The lifecycle of the test suite on a fresh record: both stamps lie
    between the creation time and the next reading. *)
Lemma stamps_follow_creation_witness :
  exists vs b' w',
    call (invokeAll [MSetInsertMeta; MSetUpdateMeta; MSetUpdateMeta; MSetDeleteMeta])
         zeroBaseCollection tickingWorld
    = inr (VNone :: vs, {| this := Some b'; ambient := w' |})
    /\ CreatedAt b' = now tickingWorld
    /\ forall k t,
         stampOf k b' = Some t ->
         stampOf k zeroBaseCollection = Some t
         \/ (time.Before t (CreatedAt b') = false
             /\ time.After t (now w') = false).
Proof.
  exact (stamps_follow_creation [MSetUpdateMeta; MSetUpdateMeta; MSetDeleteMeta]
           zeroBaseCollection tickingWorld tickingWorld_monotone eq_refl).
Defined.




(** X8.  [GetID] tells records apart by their identifier: called on two
    records it returns the same string exactly when their [Oid] fields
    are equal. *)
Theorem GetID_identifies_Oid (b1 b2 : BaseCollection) (w1 w2 : World) :
  (exists s m1 m2,
      call GetID b1 w1 = inr (s, m1) /\ call GetID b2 w2 = inr (s, m2))
  <-> Oid b1 = Oid b2.
Proof.
  split.
  - intros (s & m1 & m2 & E1 & E2).
    unfold call, GetID, load in E1, E2. cbn in E1, E2.
    inversion E1 as [[H1 _]]. inversion E2 as [[H2 _]].
    apply Hex_inj. congruence.
  - intros H. exists (primitive.Hex (Oid b1)). do 2 eexists.
    split; [reflexivity|]. rewrite H. reflexivity.
Qed.

(* ================================================================== *)
(** ** The repository *)
(* ================================================================== *)

(** The user after the record inside it has been replaced. *)
Lemma serve_promoted_SetInsertMeta
      (u : User) (w : World) (d : Driver) (log : list Request) :
  serve (promoted SetInsertMeta) u w d log =
  inr (tt, {| subject := Some (withBase (effect MSetInsertMeta w (User_BaseCollection u)) u);
              world := later 1 1 w; driver := d; sent := log |}).
Proof. reflexivity. Qed.

Lemma serve_Create (u : User) (w : World) (d : Driver) (log : list Request) :
  let u' := withBase (effect MSetInsertMeta w (User_BaseCollection u)) u in
  serve Create u w d log =
  inr (InsertOne d log u',
       {| subject := Some u'; world := later 1 1 w; driver := d;
          sent := log ++ [ReqInsertOne u'] |}).
Proof. reflexivity. Qed.

(** X9.  [Create] stamps the caller's user and then sends it: the one
    request is the insert of the user as stamped, with the identifier
    just generated and the clock reading of the call, and what comes
    back is the driver's verdict.  The user keeps the stamp when the
    driver reports an error; its other fields are untouched. *)
Theorem Create_stamps_then_inserts
        (u : User) (w : World) (d : Driver) (log : list Request) :
  exists u',
    serve Create u w d log =
    inr (InsertOne d log u',
         {| subject := Some u'; world := later 1 1 w; driver := d;
            sent := log ++ [ReqInsertOne u'] |})
    /\ Oid (User_BaseCollection u') = nextID w
    /\ CreatedAt (User_BaseCollection u') = now w
    /\ UpdatedAt (User_BaseCollection u') = UpdatedAt (User_BaseCollection u)
    /\ DeletedAt (User_BaseCollection u') = DeletedAt (User_BaseCollection u)
    /\ (Name u', Email u', Age u', IsActive u')
       = (Name u, Email u, Age u, IsActive u).
Proof.
  eexists. split; [apply serve_Create|]. repeat split.
Qed.

(** X10.  A retried [Create] does not reuse the identifier of the first
    attempt: called twice on the same user it sends two inserts, and as
    long as the generator has not repeated itself the second document
    carries another [Oid] than the first. *)
Theorem Create_retry_regenerates
        (u : User) (w : World) (d : Driver) (log : list Request) :
  freshUpTo w (idsIssued w + 2) ->
  exists r1 s1 u1 r2 s2 u2,
    serve Create u w d log = inr (r1, s1)
    /\ subject s1 = Some u1
    /\ runStateT Create s1 = inr (r2, s2)
    /\ subject s2 = Some u2
    /\ sent s2 = log ++ [ReqInsertOne u1; ReqInsertOne u2]
    /\ Oid (User_BaseCollection u2) <> Oid (User_BaseCollection u1).
Proof.
  intros Hfresh.
  set (u1 := withBase (effect MSetInsertMeta w (User_BaseCollection u)) u).
  set (u2 := withBase (effect MSetInsertMeta (later 1 1 w) (User_BaseCollection u1)) u1).
  exists (InsertOne d log u1),
         {| subject := Some u1; world := later 1 1 w; driver := d;
            sent := log ++ [ReqInsertOne u1] |}, u1,
         (InsertOne d (log ++ [ReqInsertOne u1]) u2),
         {| subject := Some u2; world := later 1 1 (later 1 1 w); driver := d;
            sent := (log ++ [ReqInsertOne u1]) ++ [ReqInsertOne u2] |}, u2.
  repeat match goal with |- _ /\ _ => split end; try reflexivity.
  - cbn. now rewrite <- app_assoc.
  - cbn. unfold nextID. cbn. intros H. symmetry in H. revert H.
    apply Hfresh; lia.
Qed.

Lemma Create_retry_regenerates_witness :
  exists r1 s1 u1 r2 s2 u2,
    serve Create alice tickingWorld sampleDriver [] = inr (r1, s1)
    /\ subject s1 = Some u1
    /\ runStateT Create s1 = inr (r2, s2)
    /\ subject s2 = Some u2
    /\ sent s2 = [] ++ [ReqInsertOne u1; ReqInsertOne u2]
    /\ Oid (User_BaseCollection u2) <> Oid (User_BaseCollection u1).
Proof.
  apply (Create_retry_regenerates alice tickingWorld sampleDriver []).
  intros i j Hij Hj. apply tickingWorld_fresh; cbn in Hj; lia.
Defined.

(** X11.  An identifier that does not parse stops [Update], [SoftDelete]
    and [FindByID] at once: each returns the error of the parse, sends
    nothing, does not read the clock and leaves the caller's user as it
    is; in particular [Update] has not stamped it. *)
Theorem malformed_id_stops_the_call
        (id : string) (err : error)
        (u : User) (w : World) (d : Driver) (log : list Request) :
  ObjectIDFromHex d id = inl err ->
  let untouched := {| subject := Some u; world := w; driver := d; sent := log |} in
  serve (Update id) u w d log = inr (Some err, untouched)
  /\ serve (SoftDelete id) u w d log = inr (Some err, untouched)
  /\ serve (FindByID id) u w d log = inr (inl err, untouched).
Proof.
  intros H. unfold serve, Update, SoftDelete, FindByID, primitive_ObjectIDFromHex.
  cbn. rewrite H. repeat split.
Qed.

Lemma malformed_id_stops_the_call_witness :
  let untouched := {| subject := Some alice; world := tickingWorld;
                      driver := sampleDriver; sent := [] |} in
  serve (Update "not-an-id") alice tickingWorld sampleDriver []
  = inr (Some errInvalidHex, untouched)
  /\ serve (SoftDelete "not-an-id") alice tickingWorld sampleDriver []
     = inr (Some errInvalidHex, untouched)
  /\ serve (FindByID "not-an-id") alice tickingWorld sampleDriver []
     = inr (inl errInvalidHex, untouched).
Proof.
  exact (malformed_id_stops_the_call "not-an-id" errInvalidHex
           alice tickingWorld sampleDriver [] eq_refl).
Defined.

(** X12.  With an identifier that parses, [Update] stamps the caller's
    user first and builds the update afterwards: the one request sent
    addresses the document by the parsed [id] (not by the [Oid] of the
    user) among those not soft-deleted, and sets exactly [name],
    [email], [age], [is_active] and [updated_at], the last being the
    stamp just stored; [_id], [created_at] and [deleted_at] are never
    written.  The user stays stamped when the driver reports an error. *)
Theorem Update_stamps_then_sends
        (id : string) (objID : primitive.ObjectID)
        (u : User) (w : World) (d : Driver) (log : list Request) :
  ObjectIDFromHex d id = inr objID ->
  exists u' filter fields,
    serve (Update id) u w d log =
    inr (UpdateOne d log filter [("$set"%string, BM fields)],
         {| subject := Some u'; world := later 1 0 w; driver := d;
            sent := log ++ [ReqUpdateOne filter [("$set"%string, BM fields)]] |})
    /\ UpdatedAt (User_BaseCollection u') = Some (now w)
    /\ Oid (User_BaseCollection u') = Oid (User_BaseCollection u)
    /\ CreatedAt (User_BaseCollection u') = CreatedAt (User_BaseCollection u)
    /\ DeletedAt (User_BaseCollection u') = DeletedAt (User_BaseCollection u)
    /\ keysM filter = ["_id"; "deleted_at"]%string
    /\ lookupM "_id" filter = Some (BObjectID objID)
    /\ lookupM "deleted_at" filter = Some (BM [("$exists"%string, BBool false)])
    /\ keysM fields = ["name"; "email"; "age"; "is_active"; "updated_at"]%string
    /\ lookupM "name" fields = Some (BString (Name u))
    /\ lookupM "email" fields = Some (BString (Email u))
    /\ lookupM "age" fields = Some (BInt (Age u))
    /\ lookupM "is_active" fields = Some (BBool (IsActive u))
    /\ lookupM "updated_at" fields = Some (BTimePtr (Some (now w))).
Proof.
  intros H. do 3 eexists. split.
  - unfold serve, Update, primitive_ObjectIDFromHex. cbn. rewrite H. cbn.
    reflexivity.
  - repeat split.
Qed.

(** In [main] the update is built from a user that was never inserted. *)
Lemma Update_stamps_then_sends_witness :
  exists u' filter fields,
    serve (Update "507f1f77bcf86cd799439011") alice tickingWorld sampleDriver [] =
    inr (UpdateOne sampleDriver [] filter [("$set"%string, BM fields)],
         {| subject := Some u'; world := later 1 0 tickingWorld;
            driver := sampleDriver;
            sent := [] ++ [ReqUpdateOne filter [("$set"%string, BM fields)]] |})
    /\ primitive.IsZero (Oid (User_BaseCollection u')) = true
    /\ lookupM "_id" filter = Some (BObjectID (counterID 4427793))
    /\ lookupM "_id" fields = None
    /\ lookupM "created_at" fields = None.
Proof.
  destruct (Update_stamps_then_sends "507f1f77bcf86cd799439011" (counterID 4427793)
              alice tickingWorld sampleDriver [] eq_refl)
    as (u' & filter & fields & E & _ & HO & _ & _ & _ & Hid & _ & Hk & _).
  exists u', filter, fields. repeat split.
  - exact E.
  - rewrite HO. reflexivity.
  - exact Hid.
  - destruct fields as [|[k1 v1] [|[k2 v2] [|[k3 v3] [|[k4 v4] [|[k5 v5] [|? ?]]]]]];
      try discriminate Hk.
    cbn in Hk. inversion Hk; subst. reflexivity.
  - destruct fields as [|[k1 v1] [|[k2 v2] [|[k3 v3] [|[k4 v4] [|[k5 v5] [|? ?]]]]]];
      try discriminate Hk.
    cbn in Hk. inversion Hk; subst. reflexivity.
Defined.

(** X13.  With an identifier that parses, [SoftDelete] reads the clock
    once and sends one update that sets [deleted_at] and nothing else,
    to the very time [SetDeleteMeta] would store in a record in the same
    world.  The document is addressed by [_id] alone, so one that is
    soft-deleted already is stamped again.  No user is touched. *)
Theorem SoftDelete_sends_the_delete_stamp
        (id : string) (objID : primitive.ObjectID) (b : BaseCollection)
        (u : User) (w : World) (d : Driver) (log : list Request) :
  ObjectIDFromHex d id = inr objID ->
  exists t b',
    call SetDeleteMeta b w =
    inr (tt, {| this := Some b'; ambient := later 1 0 w |})
    /\ DeletedAt b' = Some t
    /\ let filter := [("_id"%string, BObjectID objID)] in
       let update := [("$set"%string, BM [("deleted_at"%string, BTimePtr (Some t))])] in
       serve (SoftDelete id) u w d log =
       inr (UpdateOne d log filter update,
            {| subject := Some u; world := later 1 0 w; driver := d;
               sent := log ++ [ReqUpdateOne filter update] |}).
Proof.
  intros H. exists (now w), (set_DeletedAt (Some (now w)) b).
  split; [apply call_SetDeleteMeta|]. split; [reflexivity|].
  unfold serve, SoftDelete, primitive_ObjectIDFromHex. cbn. rewrite H. cbn.
  destruct u as [[o c up de] n e a act]. reflexivity.
Qed.

Lemma SoftDelete_sends_the_delete_stamp_witness :
  exists t b',
    call SetDeleteMeta storedRecord tickingWorld =
    inr (tt, {| this := Some b'; ambient := later 1 0 tickingWorld |})
    /\ DeletedAt b' = Some t
    /\ let filter := [("_id"%string, BObjectID (counterID 4427793))] in
       let update := [("$set"%string, BM [("deleted_at"%string, BTimePtr (Some t))])] in
       serve (SoftDelete "507f1f77bcf86cd799439011") alice tickingWorld sampleDriver [] =
       inr (UpdateOne sampleDriver [] filter update,
            {| subject := Some alice; world := later 1 0 tickingWorld;
               driver := sampleDriver;
               sent := [] ++ [ReqUpdateOne filter update] |}).
Proof.
  exact (SoftDelete_sends_the_delete_stamp "507f1f77bcf86cd799439011"
           (counterID 4427793) storedRecord alice tickingWorld sampleDriver []
           eq_refl).
Defined.

Lemma decodeLoop_all (users acc : list User) :
  decodeLoop (map inr users) acc = inr (acc ++ users).
Proof.
  revert acc. induction users as [|x users IH]; intros acc; cbn.
  - now rewrite app_nil_r.
  - rewrite IH, <- app_assoc. reflexivity.
Qed.

Lemma decodeLoop_error
      (pre : list User) (err : error) (post : list (error + User)) (acc : list User) :
  decodeLoop (map inr pre ++ inl err :: post) acc = inl err.
Proof.
  revert acc. induction pre as [|x pre IH]; intros acc; cbn; [reflexivity|].
  apply IH.
Qed.

(** Every cursor is a run of documents that decode, then either the end
    or a document that does not. *)
Lemma cursor_shape (cursor : list (error + User)) :
  (exists users, cursor = map inr users)
  \/ (exists pre err post, cursor = map inr pre ++ inl err :: post).
Proof.
  induction cursor as [|[err|x] cursor IH].
  - left. now exists [].
  - right. now exists [], err, cursor.
  - destruct IH as [(users & ->)|(pre & err & post & ->)].
    + left. now exists (x :: users).
    + right. now exists (x :: pre), err, post.
Qed.

(** X14.  [FindAll] and [FindDeleted] send one [Find], filtering on
    [deleted_at] being absent and present respectively.  When [Find]
    fails they return its error and nothing more is sent.  Otherwise
    they return the users of the cursor in its order when every document
    decodes, and the first decoding error alone, without the users read
    before it, when one does not; either way the cursor is closed, once. *)
Theorem FindAll_FindDeleted_outcomes
        (deleted : bool) (u : User) (w : World) (d : Driver) (log : list Request) :
  let body := if deleted then FindDeleted else FindAll in
  let filter := [("deleted_at"%string, BM [("$exists"%string, BBool deleted)])] in
  match FindCursor d log filter with
  | inl err =>
      serve body u w d log =
      inr (inl err, {| subject := Some u; world := w; driver := d;
                       sent := log ++ [ReqFind filter] |})
  | inr cursor =>
      exists result,
        serve body u w d log =
        inr (result, {| subject := Some u; world := w; driver := d;
                        sent := log ++ [ReqFind filter; ReqCursorClose] |})
        /\ (forall users, cursor = map inr users -> result = inr users)
        /\ (forall pre err post,
              cursor = map inr pre ++ inl err :: post -> result = inl err)
        /\ ((exists users, result = inr users /\ cursor = map inr users)
            \/ (exists pre err post,
                  result = inl err /\ cursor = map inr pre ++ inl err :: post))
  end.
Proof.
  intros body filter.
  destruct (FindCursor d log filter) as [err|cursor] eqn:E.
  - subst body filter. unfold serve.
    destruct deleted; unfold FindDeleted, FindAll; cbn; rewrite E; reflexivity.
  - exists (decodeLoop cursor []). split; [|split; [|split]].
    + subst body filter. unfold serve.
      destruct deleted; unfold FindDeleted, FindAll; cbn; rewrite E; cbn;
        rewrite <- app_assoc; reflexivity.
    + intros users ->. apply (decodeLoop_all users []).
    + intros pre err post ->. apply decodeLoop_error.
    + destruct (cursor_shape cursor) as [(users & ->)|(pre & err & post & ->)].
      * left. exists users. split; [apply (decodeLoop_all users [])|reflexivity].
      * right. exists pre, err, post. split; [apply decodeLoop_error|reflexivity].
Qed.

(** X15.  The identifier [GetID] returns for a user that [Create] has
    just inserted leads back to that document: given a parser that reads
    the rendering of the generated identifier back, [FindByID] called
    with it sends one [FindOne] whose [_id] is the [Oid] of the document
    inserted, restricted to documents not soft-deleted. *)
Theorem created_user_is_found_by_its_GetID
        (u : User) (w : World) (d : Driver) (log : list Request) :
  ObjectIDFromHex d (primitive.Hex (nextID w)) = inr (nextID w) ->
  exists u' found s,
    serve (Create ;; id <- promoted GetID ;; FindByID id) u w d log
    = inr (found, s)
    /\ subject s = Some u'
    /\ sent s =
       log ++ [ReqInsertOne u';
               ReqFindOne [("_id"%string, BObjectID (Oid (User_BaseCollection u')));
                           ("deleted_at"%string,
                            BM [("$exists"%string, BBool false)])]]
    /\ world s = later 1 1 w.
Proof.
  intros H.
  exists (withBase (effect MSetInsertMeta w (User_BaseCollection u)) u).
  do 2 eexists. split.
  - unfold serve, FindByID, primitive_ObjectIDFromHex.
    cbn -[primitive.Hex]. unfold nextID in H. rewrite H. cbn. reflexivity.
  - cbn. rewrite <- app_assoc. repeat split.
Qed.

Lemma created_user_is_found_by_its_GetID_witness :
  exists u' found s,
    serve (Create ;; id <- promoted GetID ;; FindByID id)
          alice tickingWorld sampleDriver []
    = inr (found, s)
    /\ subject s = Some u'
    /\ sent s =
       [] ++ [ReqInsertOne u';
              ReqFindOne [("_id"%string, BObjectID (Oid (User_BaseCollection u')));
                          ("deleted_at"%string,
                           BM [("$exists"%string, BBool false)])]]
    /\ world s = later 1 1 tickingWorld.
Proof.
  apply (created_user_is_found_by_its_GetID alice tickingWorld sampleDriver []).
  vm_compute. reflexivity.
Defined.
